(** * Search attribute types: a shallow embedding of
    [common/searchattribute/search_attirbute.go]

    The Go package resolves the type of named search attributes from a
    dynamic-config map ([BuildTypeMap], [convertDynamicConfigType]), looks
    a type up ([GetType]), stamps the type into the metadata of payloads
    ([ApplyTypeMap], [setMetadataType]) and translates a type to the
    Elasticsearch vocabulary ([GetESType]).

    Conventions of the embedding.
    - [enumspb.IndexedValueType] is an [int32]; it is a [Z] here, and the
      conversions that produce one write their wrap-around out.
    - A Go map that the code only reads is a [gmap]; where [nil] can be told
      from an empty map (a returned map, a map that is written to) it is an
      [option (gmap _ _)] with [None] for [nil].
    - A pointer that may be [nil] is an [option].
    - [range] over a Go map visits every entry once in an unspecified
      order: the loops take the visiting order as an argument and the
      theorems hold for every order ([range_order]).
    - A [(value, error)] result is a pair whose second component is
      [None] for a [nil] error.
    - A panic is an [outcome], returned next to the state reached when it
      was raised.
    - A [SearchAttributes] value is a protobuf message, that is a tree:
      each entry of [IndexedFields] owns its payload and each payload owns
      its metadata map, so entries are held by value under their name. *)

From Stdlib Require Import ZArith Floats.SpecFloat.
From stdpp Require Import gmap strings list fin_maps.

Local Open Scope string_scope.
Local Open Scope Z_scope.

(** ** The enumeration [enumspb.IndexedValueType] *)

Module enumspb.

(** [type IndexedValueType int32] *)
Abbreviation IndexedValueType := Z (only parsing).

Definition INDEXED_VALUE_TYPE_UNSPECIFIED : IndexedValueType := 0.
Definition INDEXED_VALUE_TYPE_STRING : IndexedValueType := 1.
Definition INDEXED_VALUE_TYPE_KEYWORD : IndexedValueType := 2.
Definition INDEXED_VALUE_TYPE_INT : IndexedValueType := 3.
Definition INDEXED_VALUE_TYPE_DOUBLE : IndexedValueType := 4.
Definition INDEXED_VALUE_TYPE_BOOL : IndexedValueType := 5.
Definition INDEXED_VALUE_TYPE_DATETIME : IndexedValueType := 6.

(** Modelled from the spec: the generated protobuf package
    [go.temporal.io/api/enums/v1] is imported by the source but is not
    part of it.  The spec gives the closed enumeration Unspecified,
    String, Keyword, Int, Double, Bool, Datetime, with Unspecified the
    zero value, canonical names that are these literal strings and a
    parallel set of numeric codes. *)
Definition names : list (Z * string) :=
  [ (0, "Unspecified"); (1, "String"); (2, "Keyword"); (3, "Int");
    (4, "Double"); (5, "Bool"); (6, "Datetime") ].

(** Modelled from the spec: [IndexedValueType_name], code to canonical
    name, the first of the two lookup tables of the generated package. *)
Definition IndexedValueType_name : gmap Z string := list_to_map names.

(** Modelled from the spec: [IndexedValueType_value], canonical name to
    code, the inverse table of the generated package. *)
Definition IndexedValueType_value : gmap string Z :=
  list_to_map (prod_swap <$> names).

End enumspb.

Import enumspb.

(** ** Machine integers and [float64] *)

(** Conversion of an integer to [int32]: the low 32 bits, read as a
    two's complement number. *)
Definition int32 (z : Z) : Z := (z + 2 ^ 31) mod 2 ^ 32 - 2 ^ 31.

Definition in_int32 (z : Z) : bool := (- 2 ^ 31 <=? z) && (z <=? 2 ^ 31 - 1).

(** The integer part of a [float64] (fraction discarded, towards zero);
    [None] for an infinity or a NaN.  A finite float is [±m·2^e]. *)
Definition float64_trunc (f : spec_float) : option Z :=
  match f with
  | S754_zero _ => Some 0
  | S754_infinity _ => None
  | S754_nan => None
  | S754_finite s m e =>
      let q := Z.shiftl (Z.pos m) e in
      Some (if s then - q else q)
  end.

(** ** Values of the dynamic config *)

(** A dynamic config value is an [interface{}]: the four dynamic types
    that [convertDynamicConfigType] switches on, and any other value, kept
    with what [%T] and [%v] print for it. *)
Inductive DynamicConfigValue : Type :=
  | Float64Value (f : spec_float)
  | IntValue (n : Z)
  | StringValue (s : string)
  | EnumValue (t : IndexedValueType)
  | OtherValue (goType : string) (text : string).

(** What [%T] prints. *)
Definition dynamicType (v : DynamicConfigValue) : string :=
  match v with
  | Float64Value _ => "float64"
  | IntValue _ => "int"
  | StringValue _ => "string"
  | EnumValue _ => "enums.IndexedValueType"
  | OtherValue ty _ => ty
  end.

(** ** Errors *)

Inductive sentinel : Type := ErrInvalidName | ErrInvalidType | ErrTypeMapIsEmpty.

(** The error values the package returns: a sentinel, or a sentinel
    wrapped by [fmt.Errorf] together with the operands of the format. *)
Inductive error : Type :=
  | New (s : sentinel)
  | InvalidNameOf (name : string)
      (* fmt.Errorf("%w: %s", ErrInvalidName, name) *)
  | InvalidTypeOf (v : DynamicConfigValue).
      (* fmt.Errorf("%w: %v of type %T", ErrInvalidType, v, v) *)

(** [errors.Unwrap] down to the sentinel. *)
Definition Unwrap (e : error) : sentinel :=
  match e with
  | New s => s
  | InvalidNameOf _ => ErrInvalidName
  | InvalidTypeOf _ => ErrInvalidType
  end.

(** ** Go maps *)

Definition len {V} (m : option (gmap string V)) : nat :=
  match m with None => 0%nat | Some g => size g end.

(** [v, ok := m[k]]: a [nil] map reads as an empty one. *)
Definition index {V} (m : option (gmap string V)) (k : string) : option V :=
  match m with None => None | Some g => g !! k end.

(** The orders in which [range] may visit the entries of a map. *)
Definition range_order {V} (m : gmap string V) (visit : list (string * V)) : Prop :=
  visit ≡ₚ map_to_list m.

Definition TypeMap : Type := option (gmap string IndexedValueType).

(** [dynamicconfig.MapPropertyFn]: [nil], or a function whose call returns
    the current map. *)
Definition MapPropertyFn : Type := option (unit -> gmap string DynamicConfigValue).

(** ** [convertDynamicConfigType] and [BuildTypeMap] *)

Section Coercion.

(** The Go specification leaves the result of converting a [float64]
    that [int32] cannot represent to the implementation. *)
Variable unrepresentable : spec_float -> Z.

(** [enumspb.IndexedValueType(t)] for [t] a [float64]. *)
Definition float64_to_int32 (f : spec_float) : Z :=
  match float64_trunc f with
  | Some z => if in_int32 z then z else int32 (unrepresentable f)
  | None => int32 (unrepresentable f)
  end.

(** [int32(ivt)] on an [IndexedValueType] only renames the type: the
    tables are indexed with [ivt] itself. *)
Definition convertDynamicConfigType (dynamicConfigType : DynamicConfigValue)
  : IndexedValueType * option error :=
  let invalid :=
    (INDEXED_VALUE_TYPE_UNSPECIFIED, Some (InvalidTypeOf dynamicConfigType)) in
  match dynamicConfigType with
  | Float64Value t =>
      let ivt := float64_to_int32 t in
      match IndexedValueType_name !! ivt with
      | Some _ => (ivt, None)
      | None => invalid
      end
  | IntValue t =>
      let ivt := int32 t in
      match IndexedValueType_name !! ivt with
      | Some _ => (ivt, None)
      | None => invalid
      end
  | StringValue t =>
      match IndexedValueType_value !! t with
      | Some ivt => (ivt, None)
      | None => invalid
      end
  | EnumValue t =>
      match IndexedValueType_name !! t with
      | Some _ => (t, None)
      | None => invalid
      end
  | OtherValue _ _ => invalid
  end.

(** The loop of [BuildTypeMap]: [result] is the map under construction. *)
Fixpoint BuildTypeMap_loop (visit : list (string * DynamicConfigValue))
    (result : gmap string IndexedValueType) : TypeMap * option error :=
  match visit with
  | [] => (Some result, None)
  | (saName, saType) :: rest =>
      let '(t, err) := convertDynamicConfigType saType in
      let result := <[saName := t]> result in
      match err with
      | Some e => (None, Some e)
      | None => BuildTypeMap_loop rest result
      end
  end.

Definition BuildTypeMap (visit : list (string * DynamicConfigValue))
    (validSearchAttributesFn : MapPropertyFn) : TypeMap * option error :=
  match validSearchAttributesFn with
  | None => (None, None)
  | Some fn =>
      let validSearchAttributes := fn tt in
      if (size validSearchAttributes =? 0)%nat then (None, None)
      else BuildTypeMap_loop visit ∅
  end.

End Coercion.

(** The conversion of the amd64 port: an unrepresentable [float64]
    converts to the "integer indefinite" value, the least [int32]. *)
Definition amd64 (_ : spec_float) : Z := - 2 ^ 31.

(** ** [GetType] *)

Definition GetType (name : string) (typeMap : TypeMap)
  : IndexedValueType * option error :=
  if (len typeMap =? 0)%nat
  then (INDEXED_VALUE_TYPE_UNSPECIFIED, Some (New ErrTypeMapIsEmpty))
  else
    match index typeMap name with
    | None => (INDEXED_VALUE_TYPE_UNSPECIFIED, Some (InvalidNameOf name))
    | Some saType => (saType, None)
    end.

(** ** [GetESType] *)

Definition GetESType (t : IndexedValueType) : string :=
  if t =? INDEXED_VALUE_TYPE_STRING then "text"
  else if t =? INDEXED_VALUE_TYPE_KEYWORD then "keyword"
  else if t =? INDEXED_VALUE_TYPE_INT then "long"
  else if t =? INDEXED_VALUE_TYPE_DOUBLE then "double"
  else if t =? INDEXED_VALUE_TYPE_BOOL then "boolean"
  else if t =? INDEXED_VALUE_TYPE_DATETIME then "date"
  else "".

(** ** Payloads and search attributes *)

Module commonpb.

(** [Payload]: [Metadata] is a [map[string][]byte] that may be [nil],
    [Data] the raw value. *)
Record Payload : Type := {
  Metadata : option (gmap string (list Byte.byte));
  Data : list Byte.byte
}.

(** [SearchAttributes]: the entries of [IndexedFields] are pointers to
    payloads and may be [nil]. *)
Record SearchAttributes : Type := {
  IndexedFields : gmap string (option Payload)
}.

(** The getter accepts a [nil] receiver. *)
Definition GetIndexedFields (x : option SearchAttributes)
  : gmap string (option Payload) :=
  match x with
  | None => ∅
  | Some m => IndexedFields m
  end.

End commonpb.

Import commonpb.

Definition MetadataType : string := "type".

(** ** Panics *)

Inductive panic : Type :=
  | NilPointerDereference
  | AssignmentToNilMap
  | UnknownIndexValueType (t : IndexedValueType).

Inductive outcome : Type :=
  | Returned
  | Panicked (p : panic).

(** Sequencing of two calls on a state: a panic of the first ends the
    sequence with the state it left. *)
Definition and_then {S} (f g : S -> S * outcome) (s : S) : S * outcome :=
  match f s with
  | (s', Returned) => g s'
  | (s', Panicked p) => (s', Panicked p)
  end.

(** ** [setMetadataType] and [ApplyTypeMap] *)

(** [setMetadataType(p, t)]: the payload that [p] points to after the
    call, and how the call ended. *)
Definition setMetadataType (p : option Payload) (t : IndexedValueType)
  : option Payload * outcome :=
  if t =? INDEXED_VALUE_TYPE_UNSPECIFIED then (p, Returned)
  else
    match IndexedValueType_name !! t with
    | None => (p, Panicked (UnknownIndexValueType t))
    | Some tString =>
        match p with
        | None => (p, Panicked NilPointerDereference)
        | Some pl =>
            match Metadata pl with
            | None => (p, Panicked AssignmentToNilMap)
            | Some md =>
                (Some {| Metadata :=
                           Some (<[MetadataType := String.list_byte_of_string tString]> md);
                         Data := Data pl |},
                 Returned)
            end
        end
    end.

(** One iteration of the loop of [ApplyTypeMap] on the entry
    [saName, saPayload]; [Returned] lets the loop go on. *)
Definition ApplyTypeMap_step (typeMap : TypeMap)
    (saName : string) (saPayload : option Payload)
    (fields : gmap string (option Payload))
  : gmap string (option Payload) * outcome :=
  match saPayload with
  | None => (fields, Panicked NilPointerDereference)
  | Some pl =>
      match index (Metadata pl) MetadataType with
      | Some _ => (fields, Returned)
      | None =>
          match index typeMap saName with
          | None => (fields, Returned)
          | Some valueType =>
              let '(p', o) := setMetadataType saPayload valueType in
              (<[saName := p']> fields, o)
          end
      end
  end.

Fixpoint ApplyTypeMap_loop (typeMap : TypeMap)
    (visit : list (string * option Payload))
    (fields : gmap string (option Payload))
  : gmap string (option Payload) * outcome :=
  match visit with
  | [] => (fields, Returned)
  | (saName, saPayload) :: rest =>
      match ApplyTypeMap_step typeMap saName saPayload fields with
      | (fields', Returned) => ApplyTypeMap_loop typeMap rest fields'
      | (fields', Panicked p) => (fields', Panicked p)
      end
  end.

(** The message after the payloads of its entries were mutated. *)
Definition with_fields (x : option SearchAttributes)
    (fields : gmap string (option Payload)) : option SearchAttributes :=
  match x with
  | None => None
  | Some _ => Some {| IndexedFields := fields |}
  end.

Definition ApplyTypeMap (visit : list (string * option Payload))
    (typeMap : TypeMap) (searchAttributes : option SearchAttributes)
  : option SearchAttributes * outcome :=
  if (len typeMap =? 0)%nat then (searchAttributes, Returned)
  else
    let '(fields, o) :=
      ApplyTypeMap_loop typeMap visit (GetIndexedFields searchAttributes) in
    (with_fields searchAttributes fields, o).

(** * Vocabulary of the properties *)

(** The descriptors that stand for a member of the enumeration after
    Go's conversions to [int32]: a [float64] whose conversion is a code
    from 0 to 6, an [int] whose low 32 bits are such a code, a canonical
    name, an enumeration value from 0 to 6. *)
Definition known (unrepresentable : spec_float -> Z)
    (v : DynamicConfigValue) : Prop :=
  match v with
  | Float64Value f => 0 <= float64_to_int32 unrepresentable f <= 6
  | IntValue n => 0 <= int32 n <= 6
  | StringValue s => s ∈ names.*2
  | EnumValue t => 0 <= t <= 6
  | OtherValue _ _ => False
  end.

(** A [float64] with no fractional part. *)
Definition float64_integral (f : spec_float) : bool :=
  match f with
  | S754_zero _ => true
  | S754_finite _ m e => Z.shiftl (Z.shiftl (Z.pos m) e) (- e) =? Z.pos m
  | _ => false
  end.

(** The descriptors that are, as they stand, a code from 0 to 6, a
    canonical name or an enumeration value from 0 to 6: no truncation and
    no wrap-around. *)
Definition known_exactly (v : DynamicConfigValue) : Prop :=
  match v with
  | Float64Value f =>
      float64_integral f = true ∧ ∃ z, float64_trunc f = Some z ∧ 0 <= z <= 6
  | IntValue n => 0 <= n <= 6
  | StringValue s => s ∈ names.*2
  | EnumValue t => 0 <= t <= 6
  | OtherValue _ _ => False
  end.

(** The [float64] nearest to 1.9: 0x1E666666666666 · 2^-52. *)
Definition float64_1_9 : spec_float := S754_finite false 8556839292003942 (-52).

(** Configurations of one entry, used below. *)
Definition config1 (name : string) (v : DynamicConfigValue) : MapPropertyFn :=
  Some (λ _, {[name := v]}).

(** The rejection property read with [known_exactly]: a configuration
    with a descriptor that is not, as it stands, a known code, name or
    enumeration value makes the build fail with a [nil] map and the error
    of such a descriptor. *)
Definition rejects_all_but_exact (unrepresentable : spec_float -> Z)
    (fn : unit -> gmap string DynamicConfigValue)
    (visit : list (string * DynamicConfigValue)) : Prop :=
  range_order (fn tt) visit →
  (∃ n v, fn tt !! n = Some v ∧ ¬ known_exactly v) →
  ∃ n v, fn tt !! n = Some v ∧ ¬ known_exactly v ∧
         BuildTypeMap unrepresentable visit (Some fn)
           = (None, Some (InvalidTypeOf v)).

(** The invariant read as in the data model: no name of a built type map
    maps to Unspecified. *)
Definition never_Unspecified (unrepresentable : spec_float -> Z)
    (visit : list (string * DynamicConfigValue)) (fn : MapPropertyFn) : Prop :=
  ∀ (tm : gmap string Z) (err : option error),
    BuildTypeMap unrepresentable visit fn = (Some tm, err) →
    ∀ n t, tm !! n = Some t → t ≠ INDEXED_VALUE_TYPE_UNSPECIFIED.

(** What one iteration does to the payload of the entry it visits: the
    payload after the iteration and how the iteration ended. *)
Definition ApplyTypeMap_entry (typeMap : TypeMap)
    (saName : string) (saPayload : option Payload) : option Payload * outcome :=
  match saPayload with
  | None => (None, Panicked NilPointerDereference)
  | Some pl =>
      match index (Metadata pl) MetadataType with
      | Some _ => (saPayload, Returned)
      | None =>
          match index typeMap saName with
          | None => (saPayload, Returned)
          | Some valueType => setMetadataType saPayload valueType
          end
      end
  end.

(** [stamped typeMap saName p p']: [p'] is [p] with the type of [saName]
    written under the key "type", which [p] did not have. *)
Definition stamped (typeMap : TypeMap) (saName : string)
    (p p' : option Payload) : Prop :=
  ∃ pl md t tString,
    p = Some pl ∧ Metadata pl = Some md ∧ md !! MetadataType = None ∧
    index typeMap saName = Some t ∧ t ≠ INDEXED_VALUE_TYPE_UNSPECIFIED ∧
    IndexedValueType_name !! t = Some tString ∧
    p' = Some {| Metadata :=
                   Some (<[MetadataType := String.list_byte_of_string tString]> md);
                 Data := Data pl |}.

(** The entries of the message after a call of [ApplyTypeMap]. *)
Definition fields_after (visit : list (string * option Payload))
    (typeMap : TypeMap) (searchAttributes : option SearchAttributes)
  : gmap string (option Payload) :=
  GetIndexedFields (ApplyTypeMap visit typeMap searchAttributes).1.

(** Sample data: a payload without the key "type", a payload that has it,
    a message of one entry and a type map of one name. *)
Definition payload_untyped : Payload :=
  {| Metadata := Some ∅; Data := String.list_byte_of_string "v" |}.

Definition payload_typed (tString : string) : Payload :=
  {| Metadata := Some {[MetadataType := String.list_byte_of_string tString]};
     Data := String.list_byte_of_string "v" |}.

Definition message1 (name : string) (pl : Payload) : option SearchAttributes :=
  Some {| IndexedFields := {[name := Some pl]} |}.

Definition typeMap1 (name : string) (t : IndexedValueType) : TypeMap :=
  Some {[name := t]}.


(** * Properties *)

(** ** The tables of the enumeration *)

Lemma names_NoDup : NoDup names.*1.
Proof. compute_done. Qed.

Lemma values_NoDup : NoDup (prod_swap <$> names).*1.
Proof. compute_done. Qed.

Lemma name_lookup (t : Z) (s : string) :
  IndexedValueType_name !! t = Some s ↔ (t, s) ∈ names.
Proof.
  unfold IndexedValueType_name. split.
  - apply elem_of_list_to_map_2.
  - apply elem_of_list_to_map_1, names_NoDup.
Qed.

Lemma value_lookup (s : string) (t : Z) :
  IndexedValueType_value !! s = Some t ↔ (t, s) ∈ names.
Proof.
  unfold IndexedValueType_value. split.
  - intros H%elem_of_list_to_map_2.
    apply list_elem_of_fmap in H as ([t' s'] & [= -> ->] & H). exact H.
  - intros H. apply elem_of_list_to_map_1; [apply values_NoDup|].
    apply list_elem_of_fmap. exists (t, s). split; [reflexivity|exact H].
Qed.

Lemma names_code (t : Z) (s : string) : (t, s) ∈ names → 0 <= t <= 6.
Proof.
  unfold names. rewrite !elem_of_cons, elem_of_nil.
  intros H. repeat (destruct H as [[= -> _]|H]; [lia|]). destruct H.
Qed.

(** The codes the name table knows are exactly 0 to 6. *)
Lemma known_code (t : Z) : is_Some (IndexedValueType_name !! t) ↔ 0 <= t <= 6.
Proof.
  split.
  - intros [s H%name_lookup]. eapply names_code, H.
  - intros H.
    assert (t = 0 ∨ t = 1 ∨ t = 2 ∨ t = 3 ∨ t = 4 ∨ t = 5 ∨ t = 6) as Ht by lia.
    repeat (destruct Ht as [->|Ht]; [eexists; vm_compute; reflexivity|]).
    subst t. eexists; vm_compute; reflexivity.
Qed.

Lemma unknown_code (t : Z) : IndexedValueType_name !! t = None ↔ ¬ 0 <= t <= 6.
Proof. rewrite <- known_code, eq_None_not_Some. reflexivity. Qed.

(** The value table is the inverse of the name table. *)
Lemma value_name (s : string) (t : Z) :
  IndexedValueType_value !! s = Some t ↔ IndexedValueType_name !! t = Some s.
Proof. rewrite value_lookup, name_lookup. reflexivity. Qed.

Lemma int32_id (z : Z) : - 2 ^ 31 <= z <= 2 ^ 31 - 1 → int32 z = z.
Proof. intros H. unfold int32. rewrite Z.mod_small; lia. Qed.

(** ** [GetESType] *)

(** C8. [GetESType] is a total function given by the table
    String → "text", Keyword → "keyword", Int → "long", Double → "double",
    Bool → "boolean", Datetime → "date"; every other value of the
    underlying integer type, Unspecified included, gives the empty
    string. *)
Theorem GetESType_table :
  GetESType INDEXED_VALUE_TYPE_STRING = "text" ∧
  GetESType INDEXED_VALUE_TYPE_KEYWORD = "keyword" ∧
  GetESType INDEXED_VALUE_TYPE_INT = "long" ∧
  GetESType INDEXED_VALUE_TYPE_DOUBLE = "double" ∧
  GetESType INDEXED_VALUE_TYPE_BOOL = "boolean" ∧
  GetESType INDEXED_VALUE_TYPE_DATETIME = "date" ∧
  GetESType INDEXED_VALUE_TYPE_UNSPECIFIED = "" ∧
  ∀ t : IndexedValueType,
    t ∉ [INDEXED_VALUE_TYPE_STRING; INDEXED_VALUE_TYPE_KEYWORD;
         INDEXED_VALUE_TYPE_INT; INDEXED_VALUE_TYPE_DOUBLE;
         INDEXED_VALUE_TYPE_BOOL; INDEXED_VALUE_TYPE_DATETIME] →
    GetESType t = "".
Proof.
  repeat (split; [reflexivity|]).
  intros t Ht. rewrite !not_elem_of_cons in Ht.
  destruct Ht as (H1 & H2 & H3 & H4 & H5 & H6 & _).
  unfold GetESType.
  repeat match goal with
         | |- context [?a =? ?b] =>
             destruct (Z.eqb_spec a b); [congruence|]
         end.
  reflexivity.
Qed.

Lemma GetESType_table_witness :
  GetESType 7 = "" ∧ GetESType (-1) = "" ∧ GetESType (2 ^ 31 - 1) = "".
Proof.
  pose proof GetESType_table as (_ & _ & _ & _ & _ & _ & _ & H).
  repeat split; apply H; compute_done.
Defined.

(** ** [GetType] *)

(** C3. With a [nil] collaborator, or one that returns an empty map,
    [BuildTypeMap] returns a [nil] map and a [nil] error; and [GetType]
    on that map, as on any [nil] or empty map, fails with
    [ErrTypeMapIsEmpty] for every name, hence never with an error that
    wraps [ErrInvalidName]. *)
Theorem BuildTypeMap_absent (unrepresentable : spec_float -> Z)
    (visit : list (string * DynamicConfigValue)) (fn : MapPropertyFn) :
  (fn = None ∨ ∃ f, fn = Some f ∧ f tt = ∅) →
  BuildTypeMap unrepresentable visit fn = (None, None) ∧
  ∀ (typeMap : TypeMap) (name : string),
    (typeMap = (BuildTypeMap unrepresentable visit fn).1 ∨ len typeMap = 0%nat) →
    GetType name typeMap =
      (INDEXED_VALUE_TYPE_UNSPECIFIED, Some (New ErrTypeMapIsEmpty)) ∧
    ∀ e, (GetType name typeMap).2 = Some e → Unwrap e ≠ ErrInvalidName.
Proof.
  intros Hfn.
  assert (BuildTypeMap unrepresentable visit fn = (None, None)) as HB.
  { destruct Hfn as [->|(f & -> & Hf)]; [reflexivity|].
    unfold BuildTypeMap. rewrite Hf. reflexivity. }
  split; [exact HB|]. intros typeMap name Htm.
  assert (len typeMap = 0%nat) as Hlen.
  { destruct Htm as [->|H]; [rewrite HB; reflexivity|exact H]. }
  assert (GetType name typeMap =
            (INDEXED_VALUE_TYPE_UNSPECIFIED, Some (New ErrTypeMapIsEmpty))) as HG.
  { unfold GetType. rewrite Hlen. reflexivity. }
  split; [exact HG|]. intros e. rewrite HG. intros [= <-]. discriminate.
Qed.

Lemma BuildTypeMap_absent_witness :
  BuildTypeMap amd64 [] None = (None, None) ∧
  BuildTypeMap amd64 [] (Some (λ _, ∅)) = (None, None) ∧
  GetType "x" None = (0, Some (New ErrTypeMapIsEmpty)) ∧
  GetType "x" (Some ∅) = (0, Some (New ErrTypeMapIsEmpty)).
Proof.
  split; [apply (BuildTypeMap_absent amd64 [] None); left; reflexivity|].
  split; [apply (BuildTypeMap_absent amd64 [] (Some (λ _, ∅)));
          right; eexists; split; reflexivity|].
  split.
  - apply (BuildTypeMap_absent amd64 [] None); [left|right]; reflexivity.
  - apply (BuildTypeMap_absent amd64 [] None); [left|right]; reflexivity.
Defined.

(** C4. On a type map that is not empty, [GetType] fails with the error
    that wraps [ErrInvalidName] and carries the name when the name is not
    a key, and returns the mapped type with a [nil] error when it is.
    [GetType] only reads its arguments: its result is this pair and
    nothing else. *)
Theorem GetType_nonempty (name : string) (typeMap : TypeMap) :
  len typeMap ≠ 0%nat →
  (index typeMap name = None →
     GetType name typeMap =
       (INDEXED_VALUE_TYPE_UNSPECIFIED, Some (InvalidNameOf name)) ∧
     Unwrap (InvalidNameOf name) = ErrInvalidName) ∧
  (∀ saType, index typeMap name = Some saType →
     GetType name typeMap = (saType, None)).
Proof.
  intros Hlen. unfold GetType.
  destruct (Nat.eqb_spec (len typeMap) 0) as [H0|_]; [contradiction|].
  split.
  - intros ->. split; reflexivity.
  - intros saType ->. reflexivity.
Qed.

Lemma GetType_nonempty_witness :
  GetType "x" (Some {["x" := INDEXED_VALUE_TYPE_KEYWORD]})
    = (INDEXED_VALUE_TYPE_KEYWORD, None) ∧
  GetType "y" (Some {["x" := INDEXED_VALUE_TYPE_KEYWORD]})
    = (INDEXED_VALUE_TYPE_UNSPECIFIED, Some (InvalidNameOf "y")).
Proof.
  split.
  - apply (GetType_nonempty "x" (Some {["x" := INDEXED_VALUE_TYPE_KEYWORD]}));
      [vm_compute; lia | vm_compute; reflexivity].
  - apply (GetType_nonempty "y" (Some {["x" := INDEXED_VALUE_TYPE_KEYWORD]}));
      [vm_compute; lia | vm_compute; reflexivity].
Defined.

(** ** [convertDynamicConfigType] *)

Lemma name_of_code (t : Z) :
  0 <= t <= 6 → ∃ s, IndexedValueType_name !! t = Some s.
Proof. intros H. apply known_code in H as [s Hs]. eauto. Qed.

Lemma name_known (s : string) :
  s ∈ names.*2 ↔ ∃ t, IndexedValueType_value !! s = Some t.
Proof.
  rewrite list_elem_of_fmap. split.
  - intros ([t s'] & -> & H). exists t. apply value_lookup, H.
  - intros [t H%value_lookup]. exists (t, s). split; [reflexivity|exact H].
Qed.

(** [convertDynamicConfigType] accepts exactly the [known] descriptors,
    with a code of the name table, and rejects the others with the error
    that carries the descriptor. *)
Lemma convertDynamicConfigType_spec (unrepresentable : spec_float -> Z)
    (v : DynamicConfigValue) :
  (known unrepresentable v ∧
   ∃ t, convertDynamicConfigType unrepresentable v = (t, None) ∧ 0 <= t <= 6) ∨
  (¬ known unrepresentable v ∧
   convertDynamicConfigType unrepresentable v =
     (INDEXED_VALUE_TYPE_UNSPECIFIED, Some (InvalidTypeOf v))).
Proof.
  destruct v as [f|n|s|t|ty txt]; unfold convertDynamicConfigType, known.
  - destruct (IndexedValueType_name !! float64_to_int32 unrepresentable f)
      as [s|] eqn:E.
    + assert (0 <= float64_to_int32 unrepresentable f <= 6)
        by (apply known_code; eauto). left. eauto.
    + apply unknown_code in E. right. eauto.
  - destruct (IndexedValueType_name !! int32 n) as [s|] eqn:E.
    + assert (0 <= int32 n <= 6) by (apply known_code; eauto). left. eauto.
    + apply unknown_code in E. right. eauto.
  - destruct (IndexedValueType_value !! s) as [t|] eqn:E.
    + left. split; [apply name_known; eauto|]. exists t. split; [reflexivity|].
      apply value_lookup in E. eapply names_code, E.
    + right. split; [|reflexivity]. rewrite name_known. intros [t Ht]. congruence.
  - destruct (IndexedValueType_name !! t) as [s|] eqn:E.
    + assert (0 <= t <= 6) by (apply known_code; eauto). left. eauto.
    + apply unknown_code in E. right. eauto.
  - right. split; [tauto|reflexivity].
Qed.

(** C10. A [float64] descriptor is truncated, not rejected: whenever its
    integer part is a code of the enumeration (0 to 6),
    [convertDynamicConfigType] returns that code with a [nil] error,
    whatever the fraction was; 1.9 gives 1. *)
Theorem convertDynamicConfigType_truncates (unrepresentable : spec_float -> Z)
    (f : spec_float) (z : Z) :
  float64_trunc f = Some z →
  0 <= z <= 6 →
  convertDynamicConfigType unrepresentable (Float64Value f) = (z, None).
Proof.
  intros Hf Hz. unfold convertDynamicConfigType.
  assert (float64_to_int32 unrepresentable f = z) as ->.
  { unfold float64_to_int32. rewrite Hf.
    replace (in_int32 z) with true; [reflexivity|].
    unfold in_int32. symmetry. apply andb_true_iff. split; apply Z.leb_le; lia. }
  destruct (name_of_code z Hz) as [s ->]. reflexivity.
Qed.

Lemma convertDynamicConfigType_truncates_witness :
  float64_integral float64_1_9 = false ∧
  convertDynamicConfigType amd64 (Float64Value float64_1_9)
    = (INDEXED_VALUE_TYPE_STRING, None).
Proof.
  split; [reflexivity|].
  apply (convertDynamicConfigType_truncates amd64 float64_1_9 1);
    [reflexivity|lia].
Defined.

(** ** [BuildTypeMap] *)

Section BuildTypeMap_facts.

Variable unrepresentable : spec_float -> Z.

(** Every type that the loop stores with a [nil] error is a code of the
    name table. *)
Lemma BuildTypeMap_loop_codes (visit : list (string * DynamicConfigValue)) :
  ∀ (result tm : gmap string Z) (err : option error),
    (∀ n t, result !! n = Some t → 0 <= t <= 6) →
    BuildTypeMap_loop unrepresentable visit result = (Some tm, err) →
    err = None ∧ ∀ n t, tm !! n = Some t → 0 <= t <= 6.
Proof.
  induction visit as [|[saName saType] rest IH]; intros result tm err Hres.
  - intros [= <- <-]. split; [reflexivity|exact Hres].
  - cbn [BuildTypeMap_loop].
    destruct (convertDynamicConfigType_spec unrepresentable saType)
      as [(_ & t & -> & Ht)|(_ & ->)]; [|discriminate].
    apply IH. intros n t'. rewrite lookup_insert.
    case_decide; [intros [= <-]; exact Ht|apply Hres].
Qed.

(** A descriptor that is not [known] stops the loop, whatever the order:
    the map is [nil] and the error carries a rejected descriptor of the
    visited entries. *)
Lemma BuildTypeMap_loop_rejects (visit : list (string * DynamicConfigValue)) :
  ∀ (result : gmap string Z),
    (∃ n v, (n, v) ∈ visit ∧ ¬ known unrepresentable v) →
    ∃ n v, (n, v) ∈ visit ∧ ¬ known unrepresentable v ∧
           BuildTypeMap_loop unrepresentable visit result
             = (None, Some (InvalidTypeOf v)).
Proof.
  induction visit as [|[saName saType] rest IH]; intros result (n & v & Hin & Hv).
  - apply elem_of_nil in Hin. destruct Hin.
  - cbn [BuildTypeMap_loop].
    destruct (convertDynamicConfigType_spec unrepresentable saType)
      as [(Hk & t & -> & _)|(Hk & ->)].
    + apply elem_of_cons in Hin as [[= -> ->]|Hin]; [contradiction|].
      destruct (IH (<[saName := t]> result)) as (n' & v' & Hin' & Hv' & ->);
        [eauto|].
      exists n', v'. split; [apply elem_of_cons; auto|auto].
    + exists saName, saType. split; [apply elem_of_cons; auto|auto].
Qed.

End BuildTypeMap_facts.

Lemma range_order_elem_of {V} (m : gmap string V) (visit : list (string * V))
    (k : string) (v : V) :
  range_order m visit → ((k, v) ∈ visit ↔ m !! k = Some v).
Proof.
  unfold range_order. intros ->. apply elem_of_map_to_list.
Qed.

Lemma range_order_singleton {V} (k : string) (v : V) :
  range_order {[k := v]} [(k, v)].
Proof. unfold range_order. rewrite map_to_list_singleton. reflexivity. Qed.

(** [rejects_all_but_exact] fails on the configuration that gives the name
    "a" the [float64] 1.9: the build succeeds and maps "a" to String. *)
Lemma BuildTypeMap_rejects_counterexample :
  ¬ rejects_all_but_exact amd64
      (λ _, {["a" := Float64Value float64_1_9]})
      [("a", Float64Value float64_1_9)].
Proof.
  intros H. destruct H as (n & v & _ & _ & H).
  - apply range_order_singleton.
  - exists "a", (Float64Value float64_1_9). split; [reflexivity|].
    intros [Hint _]. discriminate Hint.
  - discriminate H.
Qed.

(** An [int] outside [int32] is wrapped before the table is consulted:
    2^32+1 is accepted as String as well. *)
Lemma BuildTypeMap_wraps_int :
  ¬ known_exactly (IntValue (2 ^ 32 + 1)) ∧
  BuildTypeMap amd64 [("a", IntValue (2 ^ 32 + 1))]
    (config1 "a" (IntValue (2 ^ 32 + 1)))
  = (Some {["a" := INDEXED_VALUE_TYPE_STRING]}, None).
Proof. split; [unfold known_exactly; lia|reflexivity]. Qed.

(** The error of a rejected entry does not depend on the name of the
    entry: the format of the error has the value and its type only. *)
Lemma BuildTypeMap_error_without_name (unrepresentable : spec_float -> Z)
    (n1 n2 : string) (v : DynamicConfigValue) :
  BuildTypeMap unrepresentable [(n1, v)] (config1 n1 v)
  = (None, Some (InvalidTypeOf v)) →
  BuildTypeMap unrepresentable [(n2, v)] (config1 n2 v)
  = BuildTypeMap unrepresentable [(n1, v)] (config1 n1 v).
Proof.
  unfold BuildTypeMap, config1. rewrite !map_size_singleton.
  cbn [Nat.eqb BuildTypeMap_loop].
  destruct (convertDynamicConfigType unrepresentable v) as [t [e|]];
    [reflexivity|].
  intros H. discriminate H.
Qed.

(** C2, as the code has it.  When some descriptor of the configuration is
    not [known] (after truncation of a [float64] and wrap-around of an
    [int]: not a code from 0 to 6, not a canonical name, not an
    enumeration value from 0 to 6, or of another dynamic type),
    [BuildTypeMap] returns a [nil] map, whatever the order of the visit,
    and the error wraps [ErrInvalidType] and carries the raw value of such
    a descriptor, hence its dynamic type; the error does not carry the
    name. *)
Theorem BuildTypeMap_rejects (unrepresentable : spec_float -> Z)
    (fn : unit -> gmap string DynamicConfigValue)
    (visit : list (string * DynamicConfigValue)) :
  range_order (fn tt) visit →
  (∃ n v, fn tt !! n = Some v ∧ ¬ known unrepresentable v) →
  ∃ n v, fn tt !! n = Some v ∧ ¬ known unrepresentable v ∧
         BuildTypeMap unrepresentable visit (Some fn)
           = (None, Some (InvalidTypeOf v)) ∧
         Unwrap (InvalidTypeOf v) = ErrInvalidType.
Proof.
  intros Hord (n & v & Hn & Hv). unfold BuildTypeMap.
  destruct (Nat.eqb_spec (size (fn tt)) 0) as [H0|_].
  { apply map_size_empty_iff in H0. rewrite H0, lookup_empty in Hn. discriminate. }
  destruct (BuildTypeMap_loop_rejects unrepresentable visit ∅)
    as (n' & v' & Hin & Hv' & ->).
  { exists n, v. split; [|exact Hv]. apply (range_order_elem_of _ _ _ _ Hord), Hn. }
  exists n', v'. split; [apply (range_order_elem_of _ _ _ _ Hord), Hin|].
  auto.
Qed.

Lemma BuildTypeMap_rejects_witness :
  BuildTypeMap amd64 [("a", StringValue "keyword")]
    (config1 "a" (StringValue "keyword"))
  = (None, Some (InvalidTypeOf (StringValue "keyword"))).
Proof.
  destruct (BuildTypeMap_rejects amd64 (λ _, {["a" := StringValue "keyword"]})
              [("a", StringValue "keyword")])
    as (n & v & Hn & _ & H & _).
  - apply range_order_singleton.
  - exists "a", (StringValue "keyword"). split; [reflexivity|].
    unfold known. compute_done.
  - apply lookup_singleton_Some in Hn as [_ <-]. exact H.
Defined.

(** When every visited descriptor is [known] the loop returns the map
    that gives each visited name the converted type of its descriptor. *)
Lemma BuildTypeMap_loop_accepts (unrepresentable : spec_float -> Z)
    (visit : list (string * DynamicConfigValue)) :
  ∀ (result : gmap string Z),
    NoDup visit.*1 →
    (∀ n v, (n, v) ∈ visit → known unrepresentable v) →
    ∃ tm, BuildTypeMap_loop unrepresentable visit result = (Some tm, None) ∧
          ∀ n, tm !! n =
               match (list_to_map visit : gmap string DynamicConfigValue) !! n with
               | Some v => Some (convertDynamicConfigType unrepresentable v).1
               | None => result !! n
               end.
Proof.
  induction visit as [|[k v] rest IH]; intros result Hnd Hknown.
  - exists result. split; [reflexivity|]. intros n.
    cbn [list_to_map foldr]. rewrite lookup_empty. reflexivity.
  - cbn [BuildTypeMap_loop]. rewrite fmap_cons in Hnd. cbn [fst] in Hnd.
    apply NoDup_cons in Hnd as [Hk Hnd].
    destruct (convertDynamicConfigType_spec unrepresentable v)
      as [(_ & t & Hc & _)|(Hk' & _)].
    2:{ exfalso. apply Hk', (Hknown k), elem_of_cons. auto. }
    rewrite Hc.
    destruct (IH (<[k := t]> result) Hnd) as (tm & -> & Htm).
    { intros n' v' Hin. apply (Hknown n'), elem_of_cons. auto. }
    exists tm. split; [reflexivity|]. intros n.
    rewrite Htm, list_to_map_cons.
    destruct (decide (n = k)) as [->|Hne].
    + rewrite (not_elem_of_list_to_map_1 _ _ Hk), !lookup_insert_eq, Hc.
      reflexivity.
    + rewrite !lookup_insert_ne by congruence. reflexivity.
Qed.

(** The build fails only on a descriptor that is not [known]: when all
    descriptors of a configuration that is not empty are [known],
    [BuildTypeMap] returns, in every order of the visit, the map that
    gives each name the converted type of its descriptor. *)
Lemma BuildTypeMap_accepts (unrepresentable : spec_float -> Z)
    (fn : unit -> gmap string DynamicConfigValue)
    (visit : list (string * DynamicConfigValue)) :
  range_order (fn tt) visit →
  fn tt ≠ ∅ →
  (∀ n v, fn tt !! n = Some v → known unrepresentable v) →
  ∃ tm, BuildTypeMap unrepresentable visit (Some fn) = (Some tm, None) ∧
        ∀ n, tm !! n =
             (λ v, (convertDynamicConfigType unrepresentable v).1) <$> fn tt !! n.
Proof.
  intros Hord Hne Hknown. unfold BuildTypeMap.
  destruct (Nat.eqb_spec (size (fn tt)) 0) as [H0|_].
  { apply map_size_empty_iff in H0. contradiction. }
  assert (NoDup visit.*1) as Hnd.
  { unfold range_order in Hord. rewrite Hord. apply NoDup_fst_map_to_list. }
  destruct (BuildTypeMap_loop_accepts unrepresentable visit ∅ Hnd)
    as (tm & -> & Htm).
  { intros n v Hin. apply (Hknown n), (range_order_elem_of _ _ _ _ Hord), Hin. }
  exists tm. split; [reflexivity|]. intros n. rewrite Htm.
  assert (list_to_map visit = fn tt) as ->.
  { rewrite (list_to_map_proper visit (map_to_list (fn tt)) Hnd Hord).
    apply list_to_map_to_list. }
  rewrite lookup_empty. destruct (fn tt !! n); reflexivity.
Qed.

(** [never_Unspecified] fails on the configuration that gives the name "a"
    the numeric code 0: the name table has the code 0, so the build
    succeeds and maps "a" to Unspecified. *)
Lemma BuildTypeMap_Unspecified_counterexample :
  ¬ never_Unspecified amd64 [("a", IntValue 0)] (config1 "a" (IntValue 0)).
Proof.
  intros H.
  apply (H {["a" := INDEXED_VALUE_TYPE_UNSPECIFIED]} None eq_refl
           "a" INDEXED_VALUE_TYPE_UNSPECIFIED); reflexivity.
Qed.

(** C1, as the code has it.  Every name of a type map that [BuildTypeMap]
    returns maps to a code of the name table, 0 to 6, and the error
    returned with the map is [nil]; Unspecified is one of these codes and
    is not rejected: the numeric code 0 (as an [int] or a [float64]), the
    name "Unspecified" and the enumeration value Unspecified all convert
    to Unspecified with a [nil] error. *)
Theorem BuildTypeMap_codes (unrepresentable : spec_float -> Z)
    (visit : list (string * DynamicConfigValue)) (fn : MapPropertyFn) :
  (∀ (tm : gmap string Z) (err : option error),
     BuildTypeMap unrepresentable visit fn = (Some tm, err) →
     err = None ∧
     ∀ n t, tm !! n = Some t →
            is_Some (IndexedValueType_name !! t) ∧ 0 <= t <= 6) ∧
  (∀ v, v ∈ [IntValue 0; Float64Value (S754_zero false);
              StringValue "Unspecified";
              EnumValue INDEXED_VALUE_TYPE_UNSPECIFIED] →
        convertDynamicConfigType unrepresentable v
          = (INDEXED_VALUE_TYPE_UNSPECIFIED, None)).
Proof.
  split.
  - intros tm err HB.
    unfold BuildTypeMap in HB. destruct fn as [f|]; [|discriminate].
    destruct (size (f tt) =? 0)%nat; [discriminate|].
    apply BuildTypeMap_loop_codes in HB as [-> Htm].
    + split; [reflexivity|]. intros n t Hn. split; [apply known_code|]; eauto.
    + intros n t. rewrite lookup_empty. discriminate.
  - intros v. rewrite !elem_of_cons, elem_of_nil.
    intros [->|[->|[->|[->|[]]]]]; reflexivity.
Qed.

Lemma BuildTypeMap_codes_witness :
  BuildTypeMap amd64 [("a", StringValue "Unspecified")]
    (config1 "a" (StringValue "Unspecified"))
  = (Some {["a" := INDEXED_VALUE_TYPE_UNSPECIFIED]}, None) ∧
  is_Some (IndexedValueType_name !! INDEXED_VALUE_TYPE_UNSPECIFIED).
Proof.
  split; [reflexivity|].
  destruct (BuildTypeMap_codes amd64 [("a", StringValue "Unspecified")]
              (config1 "a" (StringValue "Unspecified"))) as [H _].
  destruct (H {["a" := INDEXED_VALUE_TYPE_UNSPECIFIED]} None eq_refl)
    as [_ Hcodes].
  apply (Hcodes "a"). reflexivity.
Defined.

(** ** [ApplyTypeMap] *)

Section ApplyTypeMap_facts.

Variable typeMap : TypeMap.

Lemma ApplyTypeMap_step_entry (saName : string) (saPayload : option Payload)
    (fields : gmap string (option Payload)) :
  (ApplyTypeMap_step typeMap saName saPayload fields
     = (fields, (ApplyTypeMap_entry typeMap saName saPayload).2) ∧
   (ApplyTypeMap_entry typeMap saName saPayload).1 = saPayload) ∨
  ApplyTypeMap_step typeMap saName saPayload fields
    = (<[saName := (ApplyTypeMap_entry typeMap saName saPayload).1]> fields,
       (ApplyTypeMap_entry typeMap saName saPayload).2).
Proof.
  unfold ApplyTypeMap_step, ApplyTypeMap_entry.
  destruct saPayload as [pl|]; [|left; split; reflexivity].
  destruct (index (Metadata pl) MetadataType); [left; split; reflexivity|].
  destruct (index typeMap saName) as [t|]; [|left; split; reflexivity].
  right. destruct (setMetadataType (Some pl) t). reflexivity.
Qed.

(** An iteration leaves the payload as it is or stamps it. *)
Lemma ApplyTypeMap_entry_cases (saName : string) (saPayload : option Payload) :
  (ApplyTypeMap_entry typeMap saName saPayload).1 = saPayload ∨
  (stamped typeMap saName saPayload (ApplyTypeMap_entry typeMap saName saPayload).1 ∧
   (ApplyTypeMap_entry typeMap saName saPayload).2 = Returned).
Proof.
  unfold ApplyTypeMap_entry.
  destruct saPayload as [pl|]; [|left; reflexivity].
  destruct (index (Metadata pl) MetadataType) eqn:Hty; [left; reflexivity|].
  destruct (index typeMap saName) as [t|] eqn:Ht; [|left; reflexivity].
  unfold setMetadataType.
  destruct (Z.eqb_spec t INDEXED_VALUE_TYPE_UNSPECIFIED) as [->|Hne];
    [left; reflexivity|].
  destruct (IndexedValueType_name !! t) as [tString|] eqn:Hname;
    [|left; reflexivity].
  destruct (Metadata pl) as [md|] eqn:Hmd; [|left; reflexivity].
  right. split; [|reflexivity].
  exists pl, md, t, tString. repeat split; auto.
Qed.

(** An iteration that returned has nothing left to do on its payload. *)
Lemma ApplyTypeMap_entry_fixed (saName : string) (saPayload : option Payload) :
  (ApplyTypeMap_entry typeMap saName saPayload).2 = Returned →
  ApplyTypeMap_entry typeMap saName (ApplyTypeMap_entry typeMap saName saPayload).1
  = ((ApplyTypeMap_entry typeMap saName saPayload).1, Returned).
Proof.
  unfold ApplyTypeMap_entry.
  destruct saPayload as [pl|]; [|discriminate].
  destruct (index (Metadata pl) MetadataType) eqn:Hty.
  { intros _. cbn [fst]. rewrite Hty. reflexivity. }
  destruct (index typeMap saName) as [t|] eqn:Ht.
  2:{ intros _. cbn [fst]. rewrite Hty. reflexivity. }
  unfold setMetadataType.
  destruct (Z.eqb_spec t INDEXED_VALUE_TYPE_UNSPECIFIED) as [->|Hne].
  { intros _. cbn [fst]. rewrite Hty. reflexivity. }
  destruct (IndexedValueType_name !! t) as [tString|]; [|discriminate].
  destruct (Metadata pl) as [md|]; [|discriminate].
  intros _. cbn [fst Metadata index]. rewrite lookup_insert_eq. reflexivity.
Qed.

(** The loop changes an entry only through an iteration that visits it. *)
Lemma ApplyTypeMap_loop_frame (visit : list (string * option Payload)) :
  ∀ (fields fields' : gmap string (option Payload)) (o : outcome),
    ApplyTypeMap_loop typeMap visit fields = (fields', o) →
    ∀ k, fields' !! k = fields !! k ∨
         ∃ v, (k, v) ∈ visit ∧
              fields' !! k = Some (ApplyTypeMap_entry typeMap k v).1.
Proof.
  induction visit as [|[saName saPayload] rest IH]; intros fields fields' o.
  - intros [= <- <-] k. left. reflexivity.
  - cbn [ApplyTypeMap_loop]. intros Hloop k.
    assert (∀ f1 o1, ApplyTypeMap_step typeMap saName saPayload fields = (f1, o1) →
              f1 !! k = fields !! k ∨
              (k = saName ∧
               f1 !! k = Some (ApplyTypeMap_entry typeMap saName saPayload).1))
      as Hstep.
    { intros f1 o1 Hs.
      destruct (ApplyTypeMap_step_entry saName saPayload fields) as [[E _]|E];
        rewrite E in Hs; injection Hs as <- <-; [left; reflexivity|].
      rewrite lookup_insert. case_decide; [right; auto|left; reflexivity]. }
    destruct (ApplyTypeMap_step typeMap saName saPayload fields) as [f1 o1].
    specialize (Hstep f1 o1 eq_refl).
    assert (fields' !! k = f1 !! k ∨
            ∃ v, (k, v) ∈ rest ∧
                 fields' !! k = Some (ApplyTypeMap_entry typeMap k v).1) as Hrest.
    { destruct o1 as [|p]; [eapply IH, Hloop|].
      injection Hloop as <- <-. left. reflexivity. }
    destruct Hrest as [->|(v & Hin & ->)].
    + destruct Hstep as [->|[-> ->]]; [left; reflexivity|].
      right. exists saPayload. split; [apply elem_of_cons; auto|reflexivity].
    + right. exists v. split; [apply elem_of_cons; auto|reflexivity].
Qed.

End ApplyTypeMap_facts.

Section ApplyTypeMap_loop_facts.

Variable typeMap : TypeMap.

(** When the loop returns, every visited entry holds the payload that its
    iteration produced, and every iteration returned. *)
Lemma ApplyTypeMap_loop_returned (visit : list (string * option Payload)) :
  ∀ (fields fields' : gmap string (option Payload)),
    (∀ k v v', (k, v) ∈ visit → (k, v') ∈ visit → v = v') →
    (∀ k v, (k, v) ∈ visit →
            fields !! k = Some v ∨
            fields !! k = Some (ApplyTypeMap_entry typeMap k v).1) →
    ApplyTypeMap_loop typeMap visit fields = (fields', Returned) →
    ∀ k v, (k, v) ∈ visit →
           (ApplyTypeMap_entry typeMap k v).2 = Returned ∧
           fields' !! k = Some (ApplyTypeMap_entry typeMap k v).1.
Proof.
  induction visit as [|[k0 v0] rest IH]; intros fields fields' Hfun Hlive.
  - intros _ k v Hin. apply elem_of_nil in Hin. destruct Hin.
  - cbn [ApplyTypeMap_loop]. intros Hloop.
    assert (∃ f1, ApplyTypeMap_step typeMap k0 v0 fields = (f1, Returned) ∧
                  (ApplyTypeMap_entry typeMap k0 v0).2 = Returned ∧
                  f1 !! k0 = Some (ApplyTypeMap_entry typeMap k0 v0).1 ∧
                  ∀ k, k ≠ k0 → f1 !! k = fields !! k)
      as (f1 & Hs & Hret & Hk0 & Hother).
    { destruct (ApplyTypeMap_step_entry typeMap k0 v0 fields) as [[E Hid]|E];
        rewrite E in Hloop |- *;
        destruct (ApplyTypeMap_entry typeMap k0 v0).2 eqn:Ho;
        try discriminate Hloop; eexists; (split; [reflexivity|]);
        (split; [reflexivity|]).
      - split; [|reflexivity].
        destruct (Hlive k0 v0) as [H|H]; [apply elem_of_cons; auto| |exact H].
        rewrite Hid. exact H.
      - split; [apply lookup_insert_eq|].
        intros k Hk. apply lookup_insert_ne. congruence. }
    rewrite Hs in Hloop.
    assert (∀ k v, (k, v) ∈ rest →
              (ApplyTypeMap_entry typeMap k v).2 = Returned ∧
              fields' !! k = Some (ApplyTypeMap_entry typeMap k v).1) as Hrest.
    { apply (IH f1 fields'); [| |exact Hloop].
      - intros k v v' H1 H2. apply (Hfun k); apply elem_of_cons; auto.
      - intros k v Hin. destruct (decide (k = k0)) as [->|Hne].
        + right. rewrite Hk0.
          assert (v = v0) as -> by (apply (Hfun k0); apply elem_of_cons; auto).
          reflexivity.
        + rewrite (Hother k Hne). apply Hlive, elem_of_cons. auto. }
    intros k v [[= -> ->]|Hin]%elem_of_cons; [|apply Hrest, Hin].
    split; [exact Hret|].
    destruct (ApplyTypeMap_loop_frame typeMap rest f1 fields' Returned Hloop k0)
      as [->|(v' & Hin' & ->)]; [exact Hk0|].
    assert (v' = v0) as -> by (apply (Hfun k0); apply elem_of_cons; auto).
    reflexivity.
Qed.

(** On entries that an iteration leaves as they are, the loop returns and
    changes nothing. *)
Lemma ApplyTypeMap_loop_fixed (visit : list (string * option Payload))
    (fields : gmap string (option Payload)) :
  (∀ k v, (k, v) ∈ visit →
          fields !! k = Some v ∧ ApplyTypeMap_entry typeMap k v = (v, Returned)) →
  ApplyTypeMap_loop typeMap visit fields = (fields, Returned).
Proof.
  induction visit as [|[k0 v0] rest IH]; intros Hfix; [reflexivity|].
  cbn [ApplyTypeMap_loop].
  destruct (Hfix k0 v0) as [Hk0 He]; [apply elem_of_cons; auto|].
  assert (ApplyTypeMap_step typeMap k0 v0 fields = (fields, Returned)) as ->.
  { destruct (ApplyTypeMap_step_entry typeMap k0 v0 fields) as [[E _]|E];
      rewrite E, He; cbn [fst snd]; [reflexivity|].
    rewrite (insert_id _ _ _ Hk0). reflexivity. }
  apply IH. intros k v Hin. apply Hfix, elem_of_cons. auto.
Qed.

(** The entries after a loop over a [range], whatever its outcome: each
    is the entry of before, as it was or stamped. *)
Lemma ApplyTypeMap_loop_range (visit : list (string * option Payload))
    (fields fields' : gmap string (option Payload)) (o : outcome) :
  range_order fields visit →
  ApplyTypeMap_loop typeMap visit fields = (fields', o) →
  ∀ k, fields' !! k = fields !! k ∨
       ∃ v v', fields !! k = Some v ∧ fields' !! k = Some v' ∧
               stamped typeMap k v v'.
Proof.
  intros Hord Hloop k.
  destruct (ApplyTypeMap_loop_frame typeMap visit fields fields' o Hloop k)
    as [H|(v & Hin & H)]; [left; exact H|].
  apply (range_order_elem_of _ _ _ _ Hord) in Hin.
  destruct (ApplyTypeMap_entry_cases typeMap k v) as [E|[E _]].
  - left. rewrite H, E, Hin. reflexivity.
  - right. eauto.
Qed.

End ApplyTypeMap_loop_facts.

Lemma range_order_empty {V} (visit : list (string * V)) :
  range_order (∅ : gmap string V) visit → visit = [].
Proof.
  unfold range_order. rewrite map_to_list_empty. apply Permutation_nil_r.
Qed.

Lemma GetIndexedFields_with_fields (x : option SearchAttributes)
    (fields : gmap string (option Payload)) :
  GetIndexedFields (with_fields x fields)
  = match x with None => ∅ | Some _ => fields end.
Proof. destruct x; reflexivity. Qed.

(** Whatever the order of the visit and the outcome of the call, each
    entry after [ApplyTypeMap] is the entry of before, as it was or
    stamped. *)
Lemma ApplyTypeMap_range (visit : list (string * option Payload))
    (typeMap : TypeMap) (searchAttributes : option SearchAttributes) :
  range_order (GetIndexedFields searchAttributes) visit →
  ∀ k, fields_after visit typeMap searchAttributes !! k
         = GetIndexedFields searchAttributes !! k ∨
       ∃ v v', GetIndexedFields searchAttributes !! k = Some v ∧
               fields_after visit typeMap searchAttributes !! k = Some v' ∧
               stamped typeMap k v v'.
Proof.
  intros Hord k. unfold fields_after, ApplyTypeMap.
  destruct (len typeMap =? 0)%nat; [left; reflexivity|].
  destruct (ApplyTypeMap_loop typeMap visit (GetIndexedFields searchAttributes))
    as [fields' o] eqn:Hloop.
  cbn [fst]. rewrite GetIndexedFields_with_fields.
  destruct searchAttributes as [m|]; [|left; reflexivity].
  eapply ApplyTypeMap_loop_range; eauto.
Qed.

(** C6. An entry whose metadata has the key "type" before the call is the
    same after it, in every order of the visit and whatever the type map
    says about its name: the value under "type" is kept. *)
Theorem ApplyTypeMap_keeps_type (visit : list (string * option Payload))
    (typeMap : TypeMap) (searchAttributes : option SearchAttributes)
    (saName : string) (pl : Payload) (bytes : list Byte.byte) :
  range_order (GetIndexedFields searchAttributes) visit →
  GetIndexedFields searchAttributes !! saName = Some (Some pl) →
  index (Metadata pl) MetadataType = Some bytes →
  ∃ pl', fields_after visit typeMap searchAttributes !! saName = Some (Some pl') ∧
         index (Metadata pl') MetadataType = Some bytes ∧
         pl' = pl.
Proof.
  intros Hord Hk Hty. exists pl.
  destruct (ApplyTypeMap_range visit typeMap searchAttributes Hord saName)
    as [->|(v & v' & Hv & _ & Hst)]; [auto|].
  destruct Hst as (pl0 & md & t & tString & -> & Hmd & Hnone & _).
  rewrite Hk in Hv. injection Hv as ->.
  rewrite Hmd in Hty. cbn [index] in Hty. congruence.
Qed.



(** C5. [ApplyTypeMap] is idempotent: two calls in succession, each in any
    order of the visit, end as the first call alone does, with the same
    message and the same outcome.  In particular, when the first call
    returns, the second returns and changes nothing. *)
Theorem ApplyTypeMap_idempotent (visit1 visit2 : list (string * option Payload))
    (typeMap : TypeMap) (searchAttributes : option SearchAttributes) :
  range_order (GetIndexedFields searchAttributes) visit1 →
  range_order (fields_after visit1 typeMap searchAttributes) visit2 →
  and_then (ApplyTypeMap visit1 typeMap) (ApplyTypeMap visit2 typeMap)
    searchAttributes
  = ApplyTypeMap visit1 typeMap searchAttributes.
Proof.
  intros Hord1 Hord2. unfold and_then, fields_after in *.
  destruct (ApplyTypeMap visit1 typeMap searchAttributes) as [sa1 o1] eqn:H1.
  destruct o1 as [|p]; [|reflexivity].
  cbn [fst] in Hord2. unfold ApplyTypeMap in H1 |- *.
  destruct (len typeMap =? 0)%nat; [congruence|].
  destruct (ApplyTypeMap_loop typeMap visit1 (GetIndexedFields searchAttributes))
    as [f1 o] eqn:Hloop1.
  injection H1 as <- ->.
  rewrite GetIndexedFields_with_fields in Hord2 |- *.
  destruct searchAttributes as [m|]; cbn [GetIndexedFields with_fields] in *.
  2:{ apply range_order_empty in Hord2 as ->. reflexivity. }
  rewrite (ApplyTypeMap_loop_fixed typeMap visit2 f1); [reflexivity|].
  intros k w Hin. apply (range_order_elem_of _ _ _ _ Hord2) in Hin.
  split; [exact Hin|].
  pose proof (ApplyTypeMap_loop_returned typeMap visit1 (IndexedFields m) f1)
    as Hret.
  assert (∀ k v, (k, v) ∈ visit1 →
            (ApplyTypeMap_entry typeMap k v).2 = Returned ∧
            f1 !! k = Some (ApplyTypeMap_entry typeMap k v).1) as Hall.
  { apply Hret; [| |exact Hloop1].
    - intros k' v v' Hv Hv'.
      apply (range_order_elem_of _ _ _ _ Hord1) in Hv, Hv'. congruence.
    - intros k' v Hv. left. apply (range_order_elem_of _ _ _ _ Hord1), Hv. }
  assert (∃ v, (k, v) ∈ visit1) as [v Hv].
  { destruct (ApplyTypeMap_loop_frame typeMap visit1 _ _ _ Hloop1 k)
      as [E|(v & Hv & _)]; [|eauto].
    exists w. apply (range_order_elem_of _ _ _ _ Hord1). congruence. }
  destruct (Hall k v Hv) as [Ho Hf].
  rewrite Hin in Hf. injection Hf as ->.
  apply ApplyTypeMap_entry_fixed, Ho.
Qed.

Lemma range_order_message1 (name : string) (pl : Payload) :
  range_order (GetIndexedFields (message1 name pl)) [(name, Some pl)].
Proof. apply range_order_singleton. Qed.

Lemma ApplyTypeMap_keeps_type_witness :
  ∃ pl',
    fields_after [("a", Some (payload_typed "Keyword"))]
      (typeMap1 "a" INDEXED_VALUE_TYPE_INT)
      (message1 "a" (payload_typed "Keyword")) !! "a" = Some (Some pl') ∧
    index (Metadata pl') MetadataType
      = Some (String.list_byte_of_string "Keyword") ∧
    pl' = payload_typed "Keyword".
Proof.
  apply (ApplyTypeMap_keeps_type [("a", Some (payload_typed "Keyword"))]
           (typeMap1 "a" INDEXED_VALUE_TYPE_INT)
           (message1 "a" (payload_typed "Keyword")) "a").
  - apply range_order_message1.
  - reflexivity.
  - reflexivity.
Defined.



Lemma ApplyTypeMap_idempotent_witness :
  and_then
    (ApplyTypeMap [("a", Some payload_untyped)]
       (typeMap1 "a" INDEXED_VALUE_TYPE_KEYWORD))
    (ApplyTypeMap [("a", Some (payload_typed "Keyword"))]
       (typeMap1 "a" INDEXED_VALUE_TYPE_KEYWORD))
    (message1 "a" payload_untyped)
  = (message1 "a" (payload_typed "Keyword"), Returned).
Proof.
  etrans.
  - apply (ApplyTypeMap_idempotent [("a", Some payload_untyped)]
             [("a", Some (payload_typed "Keyword"))]
             (typeMap1 "a" INDEXED_VALUE_TYPE_KEYWORD)
             (message1 "a" payload_untyped)).
    + apply range_order_message1.
    + apply (range_order_message1 "a" (payload_typed "Keyword")).
  - reflexivity.
Defined.

(** ** The panics of [ApplyTypeMap] *)

(** A type of the type map that the name table does not know makes
    [setMetadataType] panic; the entry is left as it was. *)
Example ApplyTypeMap_unknown_type :
  ApplyTypeMap [("a", Some payload_untyped)] (typeMap1 "a" 42)
    (message1 "a" payload_untyped)
  = (message1 "a" payload_untyped, Panicked (UnknownIndexValueType 42)).
Proof. reflexivity. Qed.

(** Writing the key "type" into a [nil] metadata map panics. *)
Example ApplyTypeMap_nil_metadata :
  ApplyTypeMap [("a", Some {| Metadata := None; Data := [] |})]
    (typeMap1 "a" INDEXED_VALUE_TYPE_KEYWORD)
    (message1 "a" {| Metadata := None; Data := [] |})
  = (message1 "a" {| Metadata := None; Data := [] |},
     Panicked AssignmentToNilMap).
Proof. reflexivity. Qed.

(** A [nil] payload panics when its metadata are read. *)
Example ApplyTypeMap_nil_payload :
  ApplyTypeMap [("a", None)] (typeMap1 "a" INDEXED_VALUE_TYPE_KEYWORD)
    (Some {| IndexedFields := {["a" := None]} |})
  = (Some {| IndexedFields := {["a" := None]} |},
     Panicked NilPointerDereference).
Proof. reflexivity. Qed.

(** The key "type" holds the canonical name of the type, not its code. *)
Example ApplyTypeMap_stamps_name :
  ApplyTypeMap [("a", Some payload_untyped)]
    (typeMap1 "a" INDEXED_VALUE_TYPE_DATETIME) (message1 "a" payload_untyped)
  = (message1 "a" (payload_typed "Datetime"), Returned).
Proof. reflexivity. Qed.

(** * Further properties of the package *)

(** ** [convertDynamicConfigType] *)

(** [convertDynamicConfigType] has two kinds of result only: a code of the
    name table with a [nil] error, or Unspecified with the error that
    wraps [ErrInvalidType] and carries the very descriptor it was given.
    A type other than Unspecified never comes with an error. *)
Theorem convertDynamicConfigType_results (unrepresentable : spec_float -> Z)
    (v : DynamicConfigValue) :
  (∃ t, convertDynamicConfigType unrepresentable v = (t, None) ∧
        is_Some (IndexedValueType_name !! t)) ∨
  (convertDynamicConfigType unrepresentable v
     = (INDEXED_VALUE_TYPE_UNSPECIFIED, Some (InvalidTypeOf v)) ∧
   Unwrap (InvalidTypeOf v) = ErrInvalidType).
Proof.
  destruct (convertDynamicConfigType_spec unrepresentable v)
    as [(_ & t & H & Ht)|(_ & H)].
  - left. exists t. split; [exact H|apply known_code, Ht].
  - right. split; [exact H|reflexivity].
Qed.

(** Round trip through the tables: a code of the name table converts to
    itself when it is given by its canonical name, as an enumeration value
    or as an [int]. *)
Theorem convertDynamicConfigType_round_trip (unrepresentable : spec_float -> Z)
    (t : IndexedValueType) (tString : string) :
  IndexedValueType_name !! t = Some tString →
  convertDynamicConfigType unrepresentable (StringValue tString) = (t, None) ∧
  convertDynamicConfigType unrepresentable (EnumValue t) = (t, None) ∧
  convertDynamicConfigType unrepresentable (IntValue t) = (t, None).
Proof.
  intros Hname. unfold convertDynamicConfigType.
  assert (0 <= t <= 6) as Ht by (apply known_code; eauto).
  rewrite (int32_id t) by lia. rewrite Hname.
  apply value_name in Hname. rewrite Hname. auto.
Qed.

Lemma convertDynamicConfigType_round_trip_witness :
  convertDynamicConfigType amd64 (StringValue "Datetime")
    = (INDEXED_VALUE_TYPE_DATETIME, None) ∧
  convertDynamicConfigType amd64 (EnumValue INDEXED_VALUE_TYPE_DATETIME)
    = (INDEXED_VALUE_TYPE_DATETIME, None) ∧
  convertDynamicConfigType amd64 (IntValue 6)
    = (INDEXED_VALUE_TYPE_DATETIME, None).
Proof.
  apply (convertDynamicConfigType_round_trip amd64
           INDEXED_VALUE_TYPE_DATETIME "Datetime").
  reflexivity.
Defined.

(** An [int] descriptor is judged by its low 32 bits: it is accepted, with
    the code that these bits spell, exactly when they spell a code from 0
    to 6, however large the [int] is. *)
Theorem convertDynamicConfigType_int (unrepresentable : spec_float -> Z)
    (n : Z) :
  (0 <= n mod 2 ^ 32 <= 6 →
   convertDynamicConfigType unrepresentable (IntValue n)
     = (n mod 2 ^ 32, None)) ∧
  (¬ 0 <= n mod 2 ^ 32 <= 6 →
   convertDynamicConfigType unrepresentable (IntValue n)
     = (INDEXED_VALUE_TYPE_UNSPECIFIED, Some (InvalidTypeOf (IntValue n)))).
Proof.
  assert (0 <= int32 n <= 6 ↔ 0 <= n mod 2 ^ 32 <= 6) as Hiff.
  { unfold int32.
    pose proof (Z.mod_pos_bound n (2 ^ 32) ltac:(lia)) as Hm.
    pose proof (Z.mod_pos_bound (n + 2 ^ 31) (2 ^ 32) ltac:(lia)) as Hm'.
    assert ((n + 2 ^ 31) mod 2 ^ 32
            = (n mod 2 ^ 32 + 2 ^ 31) mod 2 ^ 32) as E
      by (rewrite Zplus_mod_idemp_l; reflexivity).
    destruct (Z_lt_le_dec (n mod 2 ^ 32) (2 ^ 31)) as [Hlt|Hge].
    - rewrite E, Z.mod_small by lia. lia.
    - assert ((n mod 2 ^ 32 + 2 ^ 31) mod 2 ^ 32
              = n mod 2 ^ 32 + 2 ^ 31 - 2 ^ 32) as E'.
      { symmetry. apply (Z.mod_unique_pos _ _ 1); lia. }
      rewrite E, E'. lia. }
  destruct (convertDynamicConfigType_spec unrepresentable (IntValue n))
    as [(Hk & t & H & _)|(Hk & H)]; cbn [known] in Hk.
  - split; [|intros Hn; apply Hiff in Hk; contradiction].
    intros Hn. unfold convertDynamicConfigType in H |- *.
    destruct (IndexedValueType_name !! int32 n); [|discriminate H].
    f_equal. unfold int32.
    assert ((n + 2 ^ 31) mod 2 ^ 32
            = (n mod 2 ^ 32 + 2 ^ 31) mod 2 ^ 32) as E
      by (rewrite Zplus_mod_idemp_l; reflexivity).
    rewrite E, Z.mod_small by lia. lia.
  - split; [intros Hn; apply Hiff in Hn; contradiction|]. intros _. exact H.
Qed.

Lemma convertDynamicConfigType_int_witness :
  convertDynamicConfigType amd64 (IntValue (3 * 2 ^ 32 + 2))
    = (INDEXED_VALUE_TYPE_KEYWORD, None) ∧
  convertDynamicConfigType amd64 (IntValue 7)
    = (INDEXED_VALUE_TYPE_UNSPECIFIED, Some (InvalidTypeOf (IntValue 7))).
Proof.
  split.
  - apply (convertDynamicConfigType_int amd64 (3 * 2 ^ 32 + 2)).
    vm_compute. split; discriminate.
  - apply (convertDynamicConfigType_int amd64 7).
    vm_compute. intros [_ H]. apply H. reflexivity.
Defined.

(** Where the conversion of an unrepresentable [float64] does not happen
    to give a code of the name table, a [float64] descriptor is accepted
    exactly when it is finite and its integer part is a code from 0 to 6;
    an infinity, a NaN and every other number are rejected. *)
Theorem convertDynamicConfigType_float64 (unrepresentable : spec_float -> Z)
    (f : spec_float) :
  ¬ 0 <= int32 (unrepresentable f) <= 6 →
  (convertDynamicConfigType unrepresentable (Float64Value f)).2 = None ↔
  ∃ z, float64_trunc f = Some z ∧ 0 <= z <= 6.
Proof.
  intros Hun.
  destruct (convertDynamicConfigType_spec unrepresentable (Float64Value f))
    as [(Hk & t & H & _)|(Hk & H)]; cbn [known] in Hk; rewrite H; cbn [snd].
  - split; [intros _|reflexivity].
    unfold float64_to_int32 in Hk.
    destruct (float64_trunc f) as [z|]; [|contradiction].
    destruct (in_int32 z); [eauto|contradiction].
  - split; [discriminate|]. intros (z & Hz & Hrange). exfalso. apply Hk.
    unfold float64_to_int32. rewrite Hz.
    replace (in_int32 z) with true; [exact Hrange|].
    unfold in_int32. symmetry. apply andb_true_iff. split; apply Z.leb_le; lia.
Qed.

Lemma convertDynamicConfigType_float64_witness :
  (convertDynamicConfigType amd64 (Float64Value S754_nan)).2
    = Some (InvalidTypeOf (Float64Value S754_nan)) ∧
  (convertDynamicConfigType amd64 (Float64Value float64_1_9)).2 = None.
Proof.
  split; [reflexivity|].
  apply (convertDynamicConfigType_float64 amd64 float64_1_9).
  - vm_compute. intros [H _]. apply H. reflexivity.
  - exists 1. split; [reflexivity|lia].
Defined.

(** ** [BuildTypeMap] *)

Lemma BuildTypeMap_loop_known (unrepresentable : spec_float -> Z)
    (visit : list (string * DynamicConfigValue)) :
  ∀ (result tm : gmap string Z) (err : option error),
    BuildTypeMap_loop unrepresentable visit result = (Some tm, err) →
    ∀ n v, (n, v) ∈ visit → known unrepresentable v.
Proof.
  induction visit as [|[saName saType] rest IH]; intros result tm err Hloop n v Hin.
  - apply elem_of_nil in Hin. destruct Hin.
  - cbn [BuildTypeMap_loop] in Hloop.
    destruct (convertDynamicConfigType_spec unrepresentable saType)
      as [(Hk & t & E & _)|(_ & E)]; rewrite E in Hloop; [|discriminate].
    apply elem_of_cons in Hin as [[= -> ->]|Hin]; [exact Hk|].
    eapply IH; eauto.
Qed.

(** The loop ends with a map and no error, or with an error and no map. *)
Lemma BuildTypeMap_loop_shape (unrepresentable : spec_float -> Z)
    (visit : list (string * DynamicConfigValue)) :
  ∀ (result : gmap string Z),
    (∃ tm, BuildTypeMap_loop unrepresentable visit result = (Some tm, None)) ∨
    (∃ e, BuildTypeMap_loop unrepresentable visit result = (None, Some e)).
Proof.
  induction visit as [|[saName saType] rest IH]; intros result.
  - left. eauto.
  - cbn [BuildTypeMap_loop].
    destruct (convertDynamicConfigType unrepresentable saType) as [t [e|]];
      [right; eauto|apply IH].
Qed.

(** The successful builds: the configuration is not empty, every
    descriptor is [known] and the map is the configuration with each
    descriptor replaced by its converted type. *)
Lemma BuildTypeMap_success (unrepresentable : spec_float -> Z)
    (fn : unit -> gmap string DynamicConfigValue)
    (visit : list (string * DynamicConfigValue))
    (tm : gmap string Z) :
  range_order (fn tt) visit →
  BuildTypeMap unrepresentable visit (Some fn) = (Some tm, None) ↔
  fn tt ≠ ∅ ∧
  (∀ n v, fn tt !! n = Some v → known unrepresentable v) ∧
  tm = (λ v, (convertDynamicConfigType unrepresentable v).1) <$> fn tt.
Proof.
  intros Hord. split.
  - intros HB.
    assert (fn tt ≠ ∅) as Hne.
    { intros E. unfold BuildTypeMap in HB. rewrite E, map_size_empty in HB.
      discriminate HB. }
    assert (∀ n v, fn tt !! n = Some v → known unrepresentable v) as Hknown.
    { intros n v Hn. unfold BuildTypeMap in HB.
      destruct (size (fn tt) =? 0)%nat; [discriminate|].
      eapply BuildTypeMap_loop_known; [exact HB|].
      apply (range_order_elem_of _ _ _ _ Hord), Hn. }
    split; [exact Hne|]. split; [exact Hknown|].
    destruct (BuildTypeMap_accepts unrepresentable fn visit Hord Hne Hknown)
      as (tm' & HB' & Htm').
    rewrite HB in HB'. injection HB' as <-.
    apply map_eq. intros n. rewrite Htm', lookup_fmap. reflexivity.
  - intros (Hne & Hknown & ->).
    destruct (BuildTypeMap_accepts unrepresentable fn visit Hord Hne Hknown)
      as (tm' & -> & Htm').
    do 2 f_equal. apply map_eq. intros n. rewrite Htm', lookup_fmap.
    reflexivity.
Qed.

(** When [BuildTypeMap] succeeds.  It returns a map with a [nil] error
    exactly when the configuration is not empty and every descriptor is
    [known]; the map is then the configuration with each descriptor
    replaced by its converted type, in every order of the visit, and so
    has the names and the size of the configuration. *)
Theorem BuildTypeMap_builds (unrepresentable : spec_float -> Z)
    (fn : unit -> gmap string DynamicConfigValue)
    (visit : list (string * DynamicConfigValue))
    (tm : gmap string Z) :
  range_order (fn tt) visit →
  (BuildTypeMap unrepresentable visit (Some fn) = (Some tm, None) ↔
   fn tt ≠ ∅ ∧
   (∀ n v, fn tt !! n = Some v → known unrepresentable v) ∧
   tm = (λ v, (convertDynamicConfigType unrepresentable v).1) <$> fn tt) ∧
  (BuildTypeMap unrepresentable visit (Some fn) = (Some tm, None) →
   size tm = size (fn tt) ∧ dom tm = dom (fn tt)).
Proof.
  intros Hord.
  pose proof (BuildTypeMap_success unrepresentable fn visit tm Hord) as Hiff.
  split; [exact Hiff|].
  intros (_ & _ & ->)%Hiff. split; [apply map_size_fmap|apply dom_fmap_L].
Qed.

Lemma BuildTypeMap_builds_witness :
  BuildTypeMap amd64 [("a", StringValue "Keyword")]
    (config1 "a" (StringValue "Keyword"))
  = (Some {["a" := INDEXED_VALUE_TYPE_KEYWORD]}, None).
Proof.
  apply (BuildTypeMap_builds amd64 (λ _, {["a" := StringValue "Keyword"]})
           [("a", StringValue "Keyword")]).
  - apply range_order_singleton.
  - split; [|split].
    + intros H. apply (f_equal (λ m, m !! "a")) in H. discriminate H.
    + intros n v [_ <-]%lookup_singleton_Some. unfold known. compute_done.
    + reflexivity.
Defined.

(** The order of the visit does not decide the map that [BuildTypeMap]
    returns nor whether it returns an error: two visits of one
    configuration give the same map and both an error or both none. *)
Theorem BuildTypeMap_order (unrepresentable : spec_float -> Z)
    (fn : unit -> gmap string DynamicConfigValue)
    (visit1 visit2 : list (string * DynamicConfigValue)) :
  range_order (fn tt) visit1 →
  range_order (fn tt) visit2 →
  (BuildTypeMap unrepresentable visit1 (Some fn)).1
    = (BuildTypeMap unrepresentable visit2 (Some fn)).1 ∧
  ((BuildTypeMap unrepresentable visit1 (Some fn)).2 = None ↔
   (BuildTypeMap unrepresentable visit2 (Some fn)).2 = None).
Proof.
  intros Hord1 Hord2.
  assert (∀ v1 v2, range_order (fn tt) v1 → range_order (fn tt) v2 →
            ∀ tm, BuildTypeMap unrepresentable v1 (Some fn) = (Some tm, None) →
                  BuildTypeMap unrepresentable v2 (Some fn) = (Some tm, None))
    as Hsame.
  { intros v1 v2 H1 H2 tm HB.
    apply (BuildTypeMap_success unrepresentable fn v2 tm H2).
    apply (BuildTypeMap_success unrepresentable fn v1 tm H1), HB. }
  assert (∀ v, (∃ tm, BuildTypeMap unrepresentable v (Some fn) = (Some tm, None)) ∨
               (∃ e, BuildTypeMap unrepresentable v (Some fn) = (None, Some e)) ∨
               (fn tt = ∅ ∧ BuildTypeMap unrepresentable v (Some fn) = (None, None)))
    as Hshape.
  { intros v. unfold BuildTypeMap.
    destruct (Nat.eqb_spec (size (fn tt)) 0) as [H0|_].
    - right. right. split; [apply map_size_empty_iff, H0|reflexivity].
    - destruct (BuildTypeMap_loop_shape unrepresentable v ∅); auto. }
  destruct (Hshape visit1) as [[tm H1]|[[e1 H1]|[He H1]]].
  - rewrite H1, (Hsame visit1 visit2 Hord1 Hord2 tm H1). split; reflexivity.
  - destruct (Hshape visit2) as [[tm H2]|[[e2 H2]|[He H2]]].
    + rewrite (Hsame visit2 visit1 Hord2 Hord1 tm H2) in H1. discriminate H1.
    + rewrite H1, H2. split; [reflexivity|]. split; discriminate.
    + unfold BuildTypeMap in H1. rewrite He, map_size_empty in H1.
      discriminate H1.
  - unfold BuildTypeMap. rewrite He, map_size_empty. split; reflexivity.
Qed.

Lemma BuildTypeMap_order_witness :
  (BuildTypeMap amd64 [("a", IntValue 1); ("b", IntValue 9)]
     (Some (λ _, {["a" := IntValue 1; "b" := IntValue 9]}))).1
  = (BuildTypeMap amd64 [("b", IntValue 9); ("a", IntValue 1)]
       (Some (λ _, {["a" := IntValue 1; "b" := IntValue 9]}))).1.
Proof.
  apply (BuildTypeMap_order amd64 (λ _, {["a" := IntValue 1; "b" := IntValue 9]})).
  - unfold range_order. vm_compute. reflexivity.
  - unfold range_order. vm_compute. apply perm_swap.
Defined.




(** ** [ApplyTypeMap] and [setMetadataType] *)










(** The name that [setMetadataType] writes reads back as the type: after
    a returning call with a type other than Unspecified the payload has
    the key "type", and [convertDynamicConfigType] converts the string of
    its bytes to that type. *)
Theorem setMetadataType_round_trip (unrepresentable : spec_float -> Z)
    (p p' : option Payload) (t : IndexedValueType) :
  setMetadataType p t = (p', Returned) →
  t ≠ INDEXED_VALUE_TYPE_UNSPECIFIED →
  ∃ pl' bytes,
    p' = Some pl' ∧
    index (Metadata pl') MetadataType = Some bytes ∧
    convertDynamicConfigType unrepresentable
      (StringValue (String.string_of_list_byte bytes)) = (t, None).
Proof.
  unfold setMetadataType. intros H Hne.
  destruct (Z.eqb_spec t INDEXED_VALUE_TYPE_UNSPECIFIED) as [E|_]; [contradiction|].
  destruct (IndexedValueType_name !! t) as [tString|] eqn:Hname; [|discriminate H].
  destruct p as [pl|]; [|discriminate H].
  destruct (Metadata pl) as [md|]; [|discriminate H].
  injection H as <-. eexists _, _. split; [reflexivity|].
  cbn [Metadata index]. split; [apply lookup_insert_eq|].
  rewrite String.string_of_list_byte_of_string.
  unfold convertDynamicConfigType.
  apply value_name in Hname. rewrite Hname. reflexivity.
Qed.

Lemma setMetadataType_round_trip_witness :
  ∃ pl' bytes,
    Some (payload_typed "Double") = Some pl' ∧
    index (Metadata pl') MetadataType = Some bytes ∧
    convertDynamicConfigType amd64
      (StringValue (String.string_of_list_byte bytes))
    = (INDEXED_VALUE_TYPE_DOUBLE, None).
Proof.
  apply (setMetadataType_round_trip amd64 (Some payload_untyped)
           (Some (payload_typed "Double")) INDEXED_VALUE_TYPE_DOUBLE).
  - reflexivity.
  - discriminate.
Defined.

(** [setMetadataType] itself does not keep an earlier type: of two
    returning calls in succession the last one decides, as long as its
    type is one of String to Datetime.  Only the test in [ApplyTypeMap]
    keeps a "type" that is already there. *)
Theorem setMetadataType_last_wins (p : option Payload)
    (t1 t2 : IndexedValueType) :
  (setMetadataType p t1).2 = Returned →
  1 <= t2 <= 6 →
  setMetadataType (setMetadataType p t1).1 t2 = setMetadataType p t2.
Proof.
  unfold setMetadataType. intros Hret Ht2.
  destruct (Z.eqb_spec t1 INDEXED_VALUE_TYPE_UNSPECIFIED) as [E1|_];
    [reflexivity|].
  destruct (IndexedValueType_name !! t1) as [s1|]; [|discriminate Hret].
  destruct p as [pl|]; [|discriminate Hret].
  destruct (Metadata pl) as [md|] eqn:Hmd; [|discriminate Hret].
  cbn [fst].
  destruct (Z.eqb_spec t2 INDEXED_VALUE_TYPE_UNSPECIFIED) as [E2|_].
  { unfold INDEXED_VALUE_TYPE_UNSPECIFIED in E2. lia. }
  destruct (name_of_code t2 ltac:(lia)) as [s2 ->].
  cbn [Metadata Data]. rewrite insert_insert_eq. reflexivity.
Qed.

Lemma setMetadataType_last_wins_witness :
  setMetadataType (Some (payload_typed "Keyword")) INDEXED_VALUE_TYPE_INT
  = (Some (payload_typed "Int"), Returned).
Proof.
  etrans.
  - symmetry.
    apply (setMetadataType_last_wins (Some payload_untyped)
             INDEXED_VALUE_TYPE_KEYWORD INDEXED_VALUE_TYPE_INT).
    + reflexivity.
    + vm_compute. split; discriminate.
  - reflexivity.
Defined.

(** ** [GetESType] *)

Lemma GetESType_outside (t : IndexedValueType) :
  ¬ 1 <= t <= 6 → GetESType t = "".
Proof.
  intros Ht. unfold GetESType.
  repeat match goal with
         | |- context [?a =? ?b] =>
             destruct (Z.eqb_spec a b) as [E|_];
             [exfalso; apply Ht; rewrite E; compute_done|]
         end.
  reflexivity.
Qed.

Lemma GetESType_inside (t : IndexedValueType) :
  1 <= t <= 6 → GetESType t ≠ "".
Proof.
  intros Ht.
  assert (t = 1 ∨ t = 2 ∨ t = 3 ∨ t = 4 ∨ t = 5 ∨ t = 6) as H by lia.
  repeat (destruct H as [->|H]; [discriminate|]). subst t. discriminate.
Qed.

(** [GetESType] gives an Elasticsearch type exactly to the six types
    String to Datetime, and a different one to each: the Elasticsearch
    type, when there is one, determines the type. *)
Theorem GetESType_injective :
  (∀ t : IndexedValueType, GetESType t ≠ "" ↔ 1 <= t <= 6) ∧
  (∀ t1 t2 : IndexedValueType,
     GetESType t1 = GetESType t2 → GetESType t1 ≠ "" → t1 = t2).
Proof.
  assert (∀ t : IndexedValueType, GetESType t ≠ "" ↔ 1 <= t <= 6) as Hiff.
  { intros t. split.
    - intros H. destruct (decide (1 <= t <= 6)) as [Ht|Ht]; [exact Ht|].
      destruct H. apply GetESType_outside, Ht.
    - apply GetESType_inside. }
  split; [exact Hiff|].
  intros t1 t2 Heq H1.
  assert (1 <= t1 <= 6) as Ht1 by (apply Hiff, H1).
  assert (1 <= t2 <= 6) as Ht2 by (apply Hiff; rewrite <- Heq; exact H1).
  assert (t1 = 1 ∨ t1 = 2 ∨ t1 = 3 ∨ t1 = 4 ∨ t1 = 5 ∨ t1 = 6) as C1 by lia.
  assert (t2 = 1 ∨ t2 = 2 ∨ t2 = 3 ∨ t2 = 4 ∨ t2 = 5 ∨ t2 = 6) as C2 by lia.
  clear - Heq C1 C2.
  repeat (destruct C1 as [->|C1]); try subst t1;
    repeat (destruct C2 as [->|C2]); try subst t2;
    first [reflexivity | discriminate Heq].
Qed.

Lemma GetESType_injective_witness :
  GetESType INDEXED_VALUE_TYPE_INT ≠ "" ∧
  (GetESType 3 = GetESType INDEXED_VALUE_TYPE_INT → 3 = INDEXED_VALUE_TYPE_INT).
Proof.
  pose proof GetESType_injective as [Hiff Hinj].
  split.
  - apply Hiff. vm_compute. split; discriminate.
  - intros H. apply Hinj; [exact H|discriminate].
Defined.

(** Every type of a built map but Unspecified has an Elasticsearch type:
    on the types of a map that [BuildTypeMap] returned, [GetESType] is
    empty for Unspecified only. *)
Theorem GetESType_BuildTypeMap (unrepresentable : spec_float -> Z)
    (visit : list (string * DynamicConfigValue)) (fn : MapPropertyFn)
    (tm : gmap string Z) (err : option error) (n : string)
    (t : IndexedValueType) :
  BuildTypeMap unrepresentable visit fn = (Some tm, err) →
  tm !! n = Some t →
  GetESType t = "" ↔ t = INDEXED_VALUE_TYPE_UNSPECIFIED.
Proof.
  intros HB Hn.
  assert (0 <= t <= 6) as Ht.
  { unfold BuildTypeMap in HB. destruct fn as [f|]; [|discriminate].
    destruct (size (f tt) =? 0)%nat; [discriminate|].
    apply BuildTypeMap_loop_codes in HB as [_ Htm]; [eapply Htm, Hn|].
    intros n' t'. rewrite lookup_empty. discriminate. }
  split.
  - intros He. destruct (decide (1 <= t <= 6)) as [H|H].
    + apply GetESType_inside in H. contradiction.
    + unfold INDEXED_VALUE_TYPE_UNSPECIFIED. lia.
  - intros ->. reflexivity.
Qed.

Lemma GetESType_BuildTypeMap_witness :
  GetESType INDEXED_VALUE_TYPE_UNSPECIFIED = "" ↔
  INDEXED_VALUE_TYPE_UNSPECIFIED = INDEXED_VALUE_TYPE_UNSPECIFIED.
Proof.
  apply (GetESType_BuildTypeMap amd64 [("a", IntValue 0)]
           (config1 "a" (IntValue 0))
           {["a" := INDEXED_VALUE_TYPE_UNSPECIFIED]} None "a").
  - reflexivity.
  - reflexivity.
Defined.
